(** * A shallow embedding of [pixiv_pixie/queen.py]

    The module [queen.py] defines [FunctionCall], a deferred call that can be
    rendered for diagnostics, and [PixieQueen.fetch_and_download], a retrying
    loop that fetches a query set, pipes it through
    order_by / limit / filter / exclude / limit / enumerate and submits one
    download job per item to a thread pool.

    Python values are modelled by [pyval], Python exceptions by [exn] (with
    the class distinction [except Exception] relies on), the lazy [QuerySet]
    by a lazy sequence [lazyseq] that may raise while it is consumed, and the
    effects of one run (how often the fetch callable was called, which
    download jobs reached the executor, what the safe callback logged) by an
    explicit state record threaded through the code. *)

From Stdlib Require Import String List ZArith Lia.
From stdpp Require Import base gmap strings.

Import ListNotations.

#[local] Set Warnings "-register-all".

(* ------------------------------------------------------------------ *)
(** ** Python values and exceptions *)

(** The values that flow through [fetch_and_download]: keyword arguments,
    positional arguments of the fetch call, illust objects, futures and
    the naming-information dict. *)
Inductive pyval : Type :=
| PNone
| PBool (b : bool)
| PInt (z : Z)
| PStr (s : string)
| PIllust (id : nat)
| PFuture (id : nat)
| PDict (entries : list (string * pyval)).

(** A Python callable, as far as [FunctionCall.__str__] looks at it: its
    [__name__] attribute when it has one, and its [repr]. *)
Record PyFunction : Type := mkPyFunction {
  fn_name : option string;
  fn_repr : string
}.

(** [FunctionCall(fn, *args, **kwargs)]; keyword arguments keep the
    insertion order of the Python dict. *)
Record FunctionCall : Type := mkFunctionCall {
  fc_fn : PyFunction;
  fc_args : list pyval;
  fc_kwargs : list (string * pyval)
}.

(** An exception object: its class name, whether the class derives from
    [Exception] (as opposed to [BaseException] only, like
    [KeyboardInterrupt] or [SystemExit]), and the [fetch_call] attribute that
    [fetch_and_download] sets before re-raising. *)
Record exn : Type := mkExn {
  exn_type : string;
  exn_is_Exception : bool;
  exn_fetch_call : option FunctionCall
}.

(** [e.fetch_call = fetch]: the same exception with the attribute set. *)
Definition set_fetch_call (e : exn) (c : FunctionCall) : exn :=
  mkExn (exn_type e) (exn_is_Exception e) (Some c).

(** Either a value or a raised exception. *)
Inductive result (A : Type) : Type :=
| Ok (a : A)
| Raise (e : exn).
Arguments Ok {A} a.
Arguments Raise {A} e.

(* ------------------------------------------------------------------ *)
(** ** [FunctionCall.__str__] *)

(** Python's truth value of a [str]: non-empty. *)
Definition str_truthy (s : string) : bool :=
  match s with EmptyString => false | String _ _ => true end.

Section FunctionCallStr.

(** Python's [repr] on argument values. *)
Variable repr : pyval -> string.

Definition function_name (f : PyFunction) : string :=
  match fn_name f with
  | Some n => n
  | None => fn_repr f
  end.

(** ['{}={}'.format(k, repr(v))] *)
Definition kwarg_str (kv : string * pyval) : string :=
  (fst kv ++ "=" ++ repr (snd kv))%string.

Definition FunctionCall_str (c : FunctionCall) : string :=
  let function_name := function_name (fc_fn c) in
  let args_str := String.concat ", " (map repr (fc_args c)) in
  let kwargs_str := String.concat ", " (map kwarg_str (fc_kwargs c)) in
  let parameter_str :=
    if str_truthy args_str && str_truthy kwargs_str
    then (args_str ++ ", " ++ kwargs_str)%string
    else if str_truthy args_str then args_str
    else if str_truthy kwargs_str then kwargs_str
    else ""%string in
  (function_name ++ "(" ++ parameter_str ++ ")")%string.

End FunctionCallStr.

(** A [repr] for the modelled values, used to run examples.  Strings are
    quoted with single quotes (no escaping is needed for the examples). *)
Fixpoint N_digits (fuel : nat) (n : N) (acc : string) : string :=
  match fuel with
  | O => acc
  | S f =>
      let acc' := String (Ascii.ascii_of_N (48 + N.modulo n 10)) acc in
      if (n <? 10)%N then acc' else N_digits f (n / 10)%N acc'
  end.

Definition Z_decimal (z : Z) : string :=
  match z with
  | Z0 => "0"
  | Zpos p => N_digits (S (Pos.size_nat p)) (Npos p) ""
  | Zneg p => ("-" ++ N_digits (S (Pos.size_nat p)) (Npos p) "")%string
  end.

Fixpoint py_repr (v : pyval) : string :=
  match v with
  | PNone => "None"
  | PBool true => "True"
  | PBool false => "False"
  | PInt z => Z_decimal z
  | PStr s => ("'" ++ s ++ "'")%string
  | PIllust n => ("<PixivIllust " ++ Z_decimal (Z.of_nat n) ++ ">")%string
  | PFuture n => ("<Future " ++ Z_decimal (Z.of_nat n) ++ ">")%string
  | PDict es =>
      ("{" ++
       (fix go (es : list (string * pyval)) : string :=
          match es with
          | [] => ""
          | [(k, x)] => "'" ++ k ++ "': " ++ py_repr x
          | (k, x) :: r => "'" ++ k ++ "': " ++ py_repr x ++ ", " ++ go r
          end) es ++ "}")%string
  end.

(* ------------------------------------------------------------------ *)
(** ** The query set *)

(** Modelled from the spec: the [QuerySet] class of [pixiv_pixie] (its
    [order_by], [limit], [filter], [exclude] and [enumerate] methods), which
    is not part of src/.  The spec describes it as a lazy pipeline: every
    stage returns a new view, items are produced on demand, and producing
    the next item may fail (the underlying pages are fetched lazily).  A
    view is a lazy sequence that ends normally ([LNil]) or by raising
    ([LFail]).  Illusts are represented by their ids.  The sequences are
    finite: a source that never ends is outside this embedding, so no
    statement below says that a pass ends. *)
Inductive lazyseq (A : Type) : Type :=
| LNil
| LCons (x : A) (rest : lazyseq A)
| LFail (e : exn).
Arguments LNil {A}.
Arguments LCons {A} x rest.
Arguments LFail {A} e.

Fixpoint of_list {A} (xs : list A) : lazyseq A :=
  match xs with
  | [] => LNil
  | x :: r => LCons x (of_list r)
  end.

(** Materialises a view: the items produced before it ends, and the
    exception it ends with, if any. *)
Fixpoint force {A} (qs : lazyseq A) : list A * option exn :=
  match qs with
  | LNil => ([], None)
  | LCons x r => let '(xs, oe) := force r in (x :: xs, oe)
  | LFail e => ([], Some e)
  end.

(** Stable insertion sort under the key order [le] (ties keep source
    order). *)
Fixpoint sort_insert (le : nat -> nat -> bool) (x : nat) (ys : list nat)
  : list nat :=
  match ys with
  | [] => [x]
  | y :: r => if le x y then x :: y :: r else y :: sort_insert le x r
  end.

Definition stable_sort (le : nat -> nat -> bool) (xs : list nat) : list nat :=
  fold_right (sort_insert le) [] xs.

(** Modelled from the spec: [QuerySet.order_by(keys)], a stable sort by the
    key selectors; it needs the whole source, so a failing source fails
    the sorted view before any item. *)
Definition qs_order_by (le : nat -> nat -> bool) (qs : lazyseq nat)
  : lazyseq nat :=
  match force qs with
  | (xs, None) => of_list (stable_sort le xs)
  | (_, Some e) => LFail e
  end.

Fixpoint take {A} (n : nat) (qs : lazyseq A) : lazyseq A :=
  match n, qs with
  | O, _ => LNil
  | S _, LNil => LNil
  | S m, LCons x r => LCons x (take m r)
  | S _, LFail e => LFail e
  end.

Definition invalid_argument : exn := mkExn "ValueError" true None.

(** Modelled from the spec: [QuerySet.limit(n)] keeps the first [n] items
    and fails with an argument error when [n] is negative. *)
Definition qs_limit (n : Z) (qs : lazyseq nat) : result (lazyseq nat) :=
  if (n <? 0)%Z then Raise invalid_argument else Ok (take (Z.to_nat n) qs).

Fixpoint keep_if (p : nat -> bool) (qs : lazyseq nat) : lazyseq nat :=
  match qs with
  | LNil => LNil
  | LCons x r => if p x then LCons x (keep_if p r) else keep_if p r
  | LFail e => LFail e
  end.

(** Modelled from the spec: [QuerySet.filter(q)] keeps the items for which
    the predicate holds, [QuerySet.exclude(q)] those for which it does
    not. *)
Definition qs_filter (p : nat -> bool) (qs : lazyseq nat) : lazyseq nat :=
  keep_if p qs.

Definition qs_exclude (p : nat -> bool) (qs : lazyseq nat) : lazyseq nat :=
  keep_if (fun x => negb (p x)) qs.

Fixpoint enumerate_from {A} (i : nat) (qs : lazyseq A) : lazyseq (nat * A) :=
  match qs with
  | LNil => LNil
  | LCons x r => LCons (i, x) (enumerate_from (S i) r)
  | LFail e => LFail e
  end.

(** Modelled from the spec: [QuerySet.enumerate(start)]. *)
Definition qs_enumerate (start : nat) (qs : lazyseq nat) : lazyseq (nat * nat) :=
  enumerate_from start qs.

(* ------------------------------------------------------------------ *)
(** ** Download parameters (lines 160-165) *)

(** [kwargs_copy.get('addition_naming_info') is None] *)
Definition naming_info_is_None (d : gmap string pyval) : bool :=
  match d !! "addition_naming_info"%string with
  | None | Some PNone => true
  | Some _ => false
  end.

Definition order_info (order : nat) : pyval :=
  PDict [("order"%string, PInt (Z.of_nat order))].

(** The dict built for one enumerated [(order, illust)]. *)
Definition download_params (download_kwargs : gmap string pyval)
    (order illust : nat) : gmap string pyval :=
  let kwargs_copy := <["illust"%string := PIllust illust]> download_kwargs in
  if naming_info_is_None kwargs_copy
  then <["addition_naming_info"%string := order_info order]> kwargs_copy
  else kwargs_copy.

(** The same lines on a heap of mutable dicts, to follow which dict each
    statement writes: [dict.copy()] allocates a fresh dict,
    [d[k] = v] updates a dict in place, [d.get(k)] reads it. *)
Abbreviation heap := (gmap positive (gmap string pyval)).

Definition dict_copy (h : heap) (src : positive) : heap * positive :=
  let l := fresh (dom h) in (<[l := default ∅ (h !! src)]> h, l).

Definition dict_setitem (h : heap) (l : positive) (k : string) (v : pyval)
  : heap :=
  match h !! l with
  | Some d => <[l := <[k := v]> d]> h
  | None => h
  end.

Definition dict_get (h : heap) (l : positive) (k : string) : pyval :=
  match h !! l with
  | Some d => default PNone (d !! k)
  | None => PNone
  end.

Definition build_kwargs_copy (h : heap) (download_kwargs : positive)
    (order illust : nat) : heap * positive :=
  let '(h, kwargs_copy) := dict_copy h download_kwargs in
  let h := dict_setitem h kwargs_copy "illust" (PIllust illust) in
  let h :=
    match dict_get h kwargs_copy "addition_naming_info" with
    | PNone => dict_setitem h kwargs_copy "addition_naming_info" (order_info order)
    | _ => h
    end in
  (h, kwargs_copy).

(* ------------------------------------------------------------------ *)
(** ** [PixieQueen.fetch_and_download] *)

(** The effects one run of the method body has: how many times the fetch
    callable has been invoked, the keyword arguments of every [download]
    job handed to the executor (in submission order; the job's future is
    its index), the exceptions the safe callback logged, and whether the
    executor was shut down. *)
Record State : Type := mkState {
  st_fetch_calls : nat;
  st_jobs : list (gmap string pyval);
  st_log : list exn;
  st_shutdown : bool
}.

Definition runtime_error : exn := mkExn "RuntimeError" true None.

(** [self.download] on the unpacked [kwargs_copy]: [ThreadPoolExecutor.submit], which
    raises [RuntimeError] once the executor is shut down.  The [_submit]
    wrapper binds the keywords to [new_func(self, ...)] and then to
    [submit(self, fn, ...)]; a [download_kwargs] holding the key ['self'] or
    ['fn'] would make that binding raise, but such a dict never reaches the
    body: the call [self.fetch_and_download(..., **download_kwargs)] goes
    through the same wrapper and raises there first. *)
Definition submit_download (st : State) (kw : gmap string pyval)
  : State * result pyval :=
  if st_shutdown st then (st, Raise runtime_error)
  else (mkState (st_fetch_calls st) (st_jobs st ++ [kw]) (st_log st) false,
        Ok (PFuture (length (st_jobs st)))).

(** Modelled from the spec: [utils.safe_callback], not part of src/; the
    spec says a failure raised by the wrapped callback is caught and
    logged, never propagated. *)
Definition safe_callback (callback : pyval -> gmap string pyval -> result unit)
    (future : pyval) (kw : gmap string pyval) (st : State) : State :=
  match callback future kw with
  | Ok _ => st
  | Raise e => mkState (st_fetch_calls st) (st_jobs st) (st_log st ++ [e])
                       (st_shutdown st)
  end.

(** The arguments of [fetch_and_download]; [fetch_behaviour] is what the
    callable [fetch_func] does: given how many times it was called before
    and the arguments, it returns a query set or raises. *)
Record FetchAndDownloadArgs : Type := mkFetchAndDownloadArgs {
  fetch_func : PyFunction;
  fetch_behaviour : nat -> list pyval -> list (string * pyval)
                    -> result (lazyseq nat);
  args : option (list pyval);
  kwargs : option (list (string * pyval));
  max_tries : option Z;
  submit_download_callback : option (pyval -> gmap string pyval -> result unit);
  order_by : option (nat -> nat -> bool);
  limit_before : option Z;
  filter_q : option (nat -> bool);
  exclude_q : option (nat -> bool);
  limit_after : option Z;
  download_kwargs : gmap string pyval
}.

(** [fetch()], i.e. [FunctionCall.__call__]. *)
Definition call_fetch (a : FetchAndDownloadArgs) (fetch : FunctionCall)
    (st : State) : State * result (lazyseq nat) :=
  (mkState (S (st_fetch_calls st)) (st_jobs st) (st_log st) (st_shutdown st),
   fetch_behaviour a (st_fetch_calls st) (fc_args fetch) (fc_kwargs fetch)).

(** Lines 144-157. *)
Definition apply_stages (a : FetchAndDownloadArgs) (qs : lazyseq nat)
  : result (lazyseq nat) :=
  let qs := match order_by a with Some k => qs_order_by k qs | None => qs end in
  match match limit_before a with Some n => qs_limit n qs | None => Ok qs end with
  | Raise e => Raise e
  | Ok qs =>
      let qs := match filter_q a with Some p => qs_filter p qs | None => qs end in
      let qs := match exclude_q a with Some p => qs_exclude p qs | None => qs end in
      match limit_after a with Some n => qs_limit n qs | None => Ok qs end
  end.

Abbreviation callback := (pyval -> gmap string pyval -> State -> State).

(** Lines 159-170: the [for order, illust in qs.enumerate(start=1)] loop;
    [futures] is the list created before the retry loop. *)
Fixpoint submit_downloads (a : FetchAndDownloadArgs) (cb : option callback)
    (en : lazyseq (nat * nat)) (st : State) (futures : list (nat * pyval))
  : State * list (nat * pyval) * result unit :=
  match en with
  | LNil => (st, futures, Ok tt)
  | LFail e => (st, futures, Raise e)
  | LCons (order, illust) rest =>
      let kwargs_copy := download_params (download_kwargs a) order illust in
      match submit_download st kwargs_copy with
      | (st, Raise e) => (st, futures, Raise e)
      | (st, Ok future) =>
          let futures := futures ++ [(illust, future)] in
          let st := match cb with Some f => f future kwargs_copy st | None => st end in
          submit_downloads a cb rest st futures
      end
  end.

(** One pass through the [try] block (lines 142-172). *)
Definition attempt (a : FetchAndDownloadArgs) (cb : option callback)
    (fetch : FunctionCall) (st : State) (futures : list (nat * pyval))
  : State * list (nat * pyval) * result unit :=
  let '(st, r) := call_fetch a fetch st in
  match r with
  | Raise e => (st, futures, Raise e)
  | Ok qs =>
      match apply_stages a qs with
      | Raise e => (st, futures, Raise e)
      | Ok qs => submit_downloads a cb (qs_enumerate 1 qs) st futures
      end
  end.

(** [max_tries is None or tries < max_tries] *)
Definition may_retry (max_tries : option Z) (tries : nat) : bool :=
  match max_tries with
  | None => true
  | Some m => (Z.of_nat tries <? m)%Z
  end.

(** Lines 140-178: [for tries in count(start=1)] with its [except
    Exception] handler.  With [max_tries=None] the loop may run forever, so
    the embedding takes a bound [fuel] on the number of passes and returns
    [None] when it is used up. *)
Fixpoint retry_loop (a : FetchAndDownloadArgs) (cb : option callback)
    (fetch : FunctionCall) (fuel tries : nat) (st : State)
    (futures : list (nat * pyval))
  : option (State * result (list (nat * pyval))) :=
  match fuel with
  | O => None
  | S fuel =>
      let '(st, futures, r) := attempt a cb fetch st futures in
      match r with
      | Ok _ => Some (st, Ok futures)
      | Raise e =>
          if negb (exn_is_Exception e) then Some (st, Raise e)
          else if may_retry (max_tries a) tries
          then retry_loop a cb fetch fuel (S tries) st futures
          else Some (st, Raise (set_fetch_call e fetch))
      end
  end.

(** The [fetch] call object built on line 136. *)
Definition fetch_call_of (a : FetchAndDownloadArgs) : FunctionCall :=
  mkFunctionCall (fetch_func a) (default [] (args a)) (default [] (kwargs a)).

(** Line 134: the callback wrapped by [safe_callback]. *)
Definition fd_callback (a : FetchAndDownloadArgs) : option callback :=
  option_map safe_callback (submit_download_callback a).

Definition type_error : exn := mkExn "TypeError" true None.

(** A keyword that [FunctionCall.__init__(self, fn, *args, **kwargs)]
    already binds positionally. *)
Definition binds_init_parameter (kv : string * pyval) : bool :=
  (String.eqb (fst kv) "self" || String.eqb (fst kv) "fn")%bool.

(** [FunctionCall(fn, *args, **kwargs)]: Python raises [TypeError]
    ("got multiple values for argument") when [kwargs] holds the key
    ['self'] or ['fn']. *)
Definition new_FunctionCall (fn : PyFunction) (args : list pyval)
    (kwargs : list (string * pyval)) : result FunctionCall :=
  if existsb binds_init_parameter kwargs then Raise type_error
  else Ok (mkFunctionCall fn args kwargs).

(** The fetch keyword arguments can be bound by [FunctionCall]. *)
Definition fetch_kwargs_bindable (a : FetchAndDownloadArgs) : bool :=
  negb (existsb binds_init_parameter (default [] (kwargs a))).

(** The body of [fetch_and_download] (the work submitted to the pool):
    lines 128-131 default [args] and [kwargs], line 136 builds [fetch] (it
    may raise, outside the [try]), then the retry loop runs. *)
Definition fetch_and_download (a : FetchAndDownloadArgs) (fuel : nat)
    (st : State) : option (State * result (list (nat * pyval))) :=
  match new_FunctionCall (fetch_func a) (default [] (args a)) (default [] (kwargs a)) with
  | Raise e => Some (st, Raise e)
  | Ok fetch => retry_loop a (fd_callback a) fetch fuel 1 st []
  end.

(** [PixieQueen.shutdown] (lines 71-73), also run by [__exit__] (lines
    62-65) when a [with] block ends: [ThreadPoolExecutor.shutdown] marks the
    pool so that every later [submit] raises [RuntimeError].  A
    [fetch_and_download] body already running in the pool goes on with the
    marked pool. *)
Definition shutdown (st : State) : State :=
  mkState (st_fetch_calls st) (st_jobs st) (st_log st) true.

(** The same arguments with another [max_tries]. *)
Definition with_max_tries (a : FetchAndDownloadArgs) (m : option Z)
  : FetchAndDownloadArgs :=
  mkFetchAndDownloadArgs (fetch_func a) (fetch_behaviour a) (args a) (kwargs a)
    m (submit_download_callback a) (order_by a) (limit_before a) (filter_q a)
    (exclude_q a) (limit_after a) (download_kwargs a).


(** The same arguments with another [exclude_q]. *)
Definition with_exclude_q (a : FetchAndDownloadArgs) (q : option (nat -> bool))
  : FetchAndDownloadArgs :=
  mkFetchAndDownloadArgs (fetch_func a) (fetch_behaviour a) (args a) (kwargs a)
    (max_tries a) (submit_download_callback a) (order_by a) (limit_before a)
    (filter_q a) q (limit_after a) (download_kwargs a).

(* ------------------------------------------------------------------ *)
(** ** Concrete inputs *)

Definition fetch_ranking : PyFunction :=
  mkPyFunction (Some "fetch_ranking"%string) "<function fetch_ranking>".

Definition fresh_state : State := mkState 0 [] [] false.

Definition network_error : exn := mkExn "ConnectionError" true None.
Definition keyboard_interrupt : exn := mkExn "KeyboardInterrupt" false None.

(** Items A, B, C, D, E are the illusts 0 .. 4. *)
Definition items_ABCDE : list nat := [0; 1; 2; 3; 4].
Definition is_C (x : nat) : bool := Nat.eqb x 2.

(** [fetch_and_download(fetch_ranking, limit_before=3, exclude_q=is_C,
    limit_after=2, **download_kwargs)] over a source returning A .. E. *)
Definition scenario_args (dk : gmap string pyval)
    (cb : option (pyval -> gmap string pyval -> result unit))
    (mt : option Z) : FetchAndDownloadArgs :=
  mkFetchAndDownloadArgs fetch_ranking (fun _ _ _ => Ok (of_list items_ABCDE))
    None None mt cb None (Some 3%Z) None (Some is_C) (Some 2%Z) dk.

(** A source returning the single illust 0, with [filter_q] set to a
    predicate that holds everywhere. *)
Definition filter_all_args : FetchAndDownloadArgs :=
  mkFetchAndDownloadArgs fetch_ranking (fun _ _ _ => Ok (of_list [0]))
    None None (Some 5%Z) None None None (Some (fun _ => true)) None None ∅.

(** A source whose query set, on the first call, yields illust 0 and then
    fails while the next page is fetched; later calls yield illust 0. *)
Definition flaky_page_args : FetchAndDownloadArgs :=
  mkFetchAndDownloadArgs fetch_ranking
    (fun n _ _ => match n with
                  | O => Ok (LCons 0 (LFail network_error))
                  | S _ => Ok (of_list [0])
                  end)
    None None (Some 5%Z) None None None None None None ∅.

(** A source failing on its first [k] calls. *)
Definition failing_first_args (k : nat) (m : option Z) : FetchAndDownloadArgs :=
  mkFetchAndDownloadArgs fetch_ranking
    (fun n _ _ => if n <? k then Raise network_error else Ok (of_list [0; 1]))
    (Some [PStr "day"]) (Some [("page"%string, PInt 1)]) m None None None
    None None None ∅.

(** A source interrupted by the user on its first call. *)
Definition interrupted_args : FetchAndDownloadArgs :=
  mkFetchAndDownloadArgs fetch_ranking
    (fun n _ _ => match n with
                  | O => Raise keyboard_interrupt
                  | S _ => Ok (of_list [0])
                  end)
    None None (Some 5%Z) None None None None None None ∅.

(** [limit_before=-1]: every pass fails in the [limit] stage, after the
    fetch succeeded. *)
Definition bad_limit_args : FetchAndDownloadArgs :=
  mkFetchAndDownloadArgs fetch_ranking (fun _ _ _ => Ok (of_list [0; 1]))
    None None (Some 3%Z) None None (Some (-1)%Z) None None None ∅.


(** A source that fails on every call, with [max_tries=None]. *)
Definition always_failing_args : FetchAndDownloadArgs :=
  mkFetchAndDownloadArgs fetch_ranking (fun _ _ _ => Raise network_error)
    None None None None None None None None None ∅.


(* ================================================================== *)
(** * Proofs *)

(* ------------------------------------------------------------------ *)
(** ** Strings *)

Lemma str_app_assoc (s1 s2 s3 : string) :
  ((s1 ++ s2) ++ s3)%string = (s1 ++ (s2 ++ s3))%string.
Proof.
  induction s1 as [|c s1 IH]; [reflexivity|].
  exact (f_equal (String c) IH).
Qed.

Lemma str_truthy_app (s1 s2 : string) :
  str_truthy (s1 ++ s2) = str_truthy s1 || str_truthy s2.
Proof. destruct s1; reflexivity. Qed.

Lemma str_truthy_neq (s : string) : str_truthy s = true <-> s <> ""%string.
Proof. destruct s; simpl; split; congruence. Qed.

Lemma concat_cons_cons (sep x : string) (l : list string) :
  l <> [] -> String.concat sep (x :: l) = (x ++ sep ++ String.concat sep l)%string.
Proof. destruct l; [congruence | reflexivity]. Qed.

Lemma concat_app (sep : string) (l1 l2 : list string) :
  l1 <> [] -> l2 <> [] ->
  String.concat sep (l1 ++ l2)
  = (String.concat sep l1 ++ sep ++ String.concat sep l2)%string.
Proof.
  intros H1 H2. induction l1 as [|x r IH]; [congruence|].
  destruct r as [|y r].
  - simpl app. now apply concat_cons_cons.
  - rewrite <- app_comm_cons, concat_cons_cons by (simpl; congruence).
    rewrite IH by congruence.
    rewrite (concat_cons_cons sep x (y :: r)) by congruence.
    now rewrite ?str_app_assoc.
Qed.

Lemma concat_truthy (sep : string) (l : list string) :
  Forall (fun s => str_truthy s = true) l -> l <> [] ->
  str_truthy (String.concat sep l) = true.
Proof.
  intros HF Hne. destruct l as [|x r]; [congruence|].
  inversion HF as [|? ? Hx _]; subst.
  destruct r as [|y r]; [exact Hx|].
  rewrite concat_cons_cons by congruence.
  now rewrite str_truthy_app, Hx.
Qed.

Lemma kwarg_str_truthy (repr : pyval -> string) (kv : string * pyval) :
  str_truthy (kwarg_str repr kv) = true.
Proof.
  unfold kwarg_str. rewrite str_truthy_app.
  destruct (str_truthy (fst kv)); reflexivity.
Qed.

(** When every argument has a non-empty [repr] (as Python guarantees for
    its built-in types), [FunctionCall.__str__] renders the name followed by
    the positional then keyword arguments, joined with [', '], inside
    parentheses; with no arguments the parentheses are empty. *)
Lemma FunctionCall_str_shape (repr : pyval -> string) (c : FunctionCall) :
  (forall v, repr v <> ""%string) ->
  FunctionCall_str repr c
  = (function_name (fc_fn c) ++ "("
     ++ String.concat ", " (map repr (fc_args c)
                            ++ map (kwarg_str repr) (fc_kwargs c))
     ++ ")")%string.
Proof.
  intros Hrepr. unfold FunctionCall_str.
  assert (Hargs : fc_args c <> [] ->
                  str_truthy (String.concat ", " (map repr (fc_args c))) = true).
  { intros Hne. apply concat_truthy.
    - apply Forall_forall. intros s Hs. apply list_elem_of_In, in_map_iff in Hs.
      destruct Hs as (v & <- & _). apply str_truthy_neq, Hrepr.
    - destruct (fc_args c); simpl; congruence. }
  assert (Hkw : fc_kwargs c <> [] ->
                str_truthy (String.concat ", " (map (kwarg_str repr) (fc_kwargs c)))
                = true).
  { intros Hne. apply concat_truthy.
    - apply Forall_forall. intros s Hs. apply list_elem_of_In, in_map_iff in Hs.
      destruct Hs as (kv & <- & _). apply kwarg_str_truthy.
    - destruct (fc_kwargs c); simpl; congruence. }
  destruct (fc_args c) as [|x xs] eqn:Ea, (fc_kwargs c) as [|k ks] eqn:Ek.
  - reflexivity.
  - rewrite Hkw by congruence. reflexivity.
  - rewrite Hargs by congruence. simpl map at 2. rewrite app_nil_r.
    reflexivity.
  - rewrite Hargs, Hkw by congruence. simpl andb.
    rewrite <- (concat_app ", " (map repr (x :: xs))
                 (map (kwarg_str repr) (k :: ks)))
      by (simpl; congruence).
    reflexivity.
Qed.

(** The [if args_str and kwargs_str ... elif ...] chain of lines 27-34 is
    [', '.join] of the non-empty parts among [args_str] and [kwargs_str]. *)
Lemma FunctionCall_str_join_parts (repr : pyval -> string) (c : FunctionCall) :
  FunctionCall_str repr c
  = (function_name (fc_fn c) ++ "("
     ++ String.concat ", "
          (List.filter str_truthy [String.concat ", " (map repr (fc_args c));
                                   String.concat ", " (map (kwarg_str repr) (fc_kwargs c))])
     ++ ")")%string.
Proof.
  unfold FunctionCall_str. cbn zeta.
  destruct (str_truthy (String.concat ", " (map repr (fc_args c)))) eqn:Ha,
           (str_truthy (String.concat ", " (map (kwarg_str repr) (fc_kwargs c)))) eqn:Hk;
    cbn [List.filter andb]; rewrite ?Ha, ?Hk; reflexivity.
Qed.

(** Claim C7 (as amended).  [FunctionCall.__str__] renders [name(p)]: the
    callable's [__name__] (or its [repr] when it has none), and in the
    parentheses [p], the [', ']-join of the non-empty ones among [args_str]
    (the [repr]s of the positional arguments joined with [', ']) and
    [kwargs_str] (the [key=repr(value)] items joined with [', ']).  When
    every [repr] is non-empty (as for Python's built-in types), [p] is the
    [repr] of each positional argument followed by [key=repr(value)] for each
    keyword argument, joined with [', '].  With no arguments the
    parentheses stay, empty: the result is [name()]. *)
Theorem FunctionCall_str_renders_call (repr : pyval -> string) (c : FunctionCall) :
  FunctionCall_str repr c
  = (function_name (fc_fn c) ++ "("
     ++ String.concat ", "
          (List.filter str_truthy [String.concat ", " (map repr (fc_args c));
                                   String.concat ", " (map (kwarg_str repr) (fc_kwargs c))])
     ++ ")")%string
  /\ ((forall v, repr v <> ""%string) ->
      FunctionCall_str repr c
      = (function_name (fc_fn c) ++ "("
         ++ String.concat ", " (map repr (fc_args c)
                                ++ map (kwarg_str repr) (fc_kwargs c))
         ++ ")")%string)
  /\ (fc_args c = [] -> fc_kwargs c = [] ->
      FunctionCall_str repr c = (function_name (fc_fn c) ++ "()")%string).
Proof.
  split; [apply FunctionCall_str_join_parts|]. split.
  - intros Hrepr. now apply FunctionCall_str_shape.
  - intros Ha Hk. unfold FunctionCall_str. now rewrite Ha, Hk.
Qed.

Lemma N_digits_truthy (fuel : nat) (n : N) (acc : string) :
  str_truthy acc = true -> str_truthy (N_digits fuel n acc) = true.
Proof.
  revert n acc. induction fuel as [|fuel IH]; intros n acc Hacc; [exact Hacc|].
  cbn [N_digits]. destruct (n <? 10)%N; [reflexivity | now apply IH].
Qed.

Lemma Z_decimal_truthy (z : Z) : str_truthy (Z_decimal z) = true.
Proof.
  destruct z as [|p|p]; unfold Z_decimal; [reflexivity | |].
  - cbn [N_digits]. destruct (_ <? 10)%N; [reflexivity|].
    apply N_digits_truthy. reflexivity.
  - rewrite str_truthy_app. reflexivity.
Qed.

Lemma py_repr_nonempty (v : pyval) : py_repr v <> ""%string.
Proof.
  apply str_truthy_neq.
  destruct v as [| [] | z | s | n | n | es]; cbn [py_repr];
    rewrite ?str_truthy_app; try reflexivity.
  apply Z_decimal_truthy.
Qed.

(** Witness of C7: [fetch_ranking('day', page=1)]. *)
Lemma FunctionCall_str_renders_call_witness :
  (forall v, py_repr v <> ""%string) /\
  FunctionCall_str py_repr
    (mkFunctionCall fetch_ranking [PStr "day"] [("page"%string, PInt 1)])
  = "fetch_ranking('day', page=1)"%string.
Proof.
  split; [exact py_repr_nonempty|].
  rewrite (proj1 (proj2 (FunctionCall_str_renders_call py_repr
             (mkFunctionCall fetch_ranking [PStr "day"] [("page"%string, PInt 1)])))
             py_repr_nonempty).
  reflexivity.
Defined.

(** Claim C7 fails as stated: with no arguments the parenthesized list is
    not omitted, [FunctionCall(fetch_ranking)] renders as
    [fetch_ranking()], not [fetch_ranking]. *)
Lemma FunctionCall_str_no_args_keeps_parens :
  FunctionCall_str py_repr (mkFunctionCall fetch_ranking [] [])
  = "fetch_ranking()"%string
  /\ FunctionCall_str py_repr (mkFunctionCall fetch_ranking [] [])
     <> "fetch_ranking"%string.
Proof. split; [reflexivity | vm_compute; discriminate]. Qed.

(* ------------------------------------------------------------------ *)
(** ** The enumeration loop and one pass of the [try] block *)

Lemma enumerate_from_of_list {A} (i : nat) (xs : list A) :
  enumerate_from i (of_list xs) = of_list (combine (seq i (length xs)) xs).
Proof.
  revert i. induction xs as [|x xs IH]; intros i; [reflexivity|].
  simpl. now rewrite IH.
Qed.

(** A callback that leaves the fetch counter, the submitted jobs and the
    executor alone. *)
Definition cb_preserves (cb : option callback) : Prop :=
  forall f fut kw st, cb = Some f ->
    st_fetch_calls (f fut kw st) = st_fetch_calls st /\
    st_jobs (f fut kw st) = st_jobs st /\
    st_shutdown (f fut kw st) = st_shutdown st.

Lemma fd_callback_preserves (a : FetchAndDownloadArgs) :
  cb_preserves (fd_callback a).
Proof.
  intros f fut kw st Hf. unfold fd_callback in Hf.
  destruct (submit_download_callback a) as [c|]; simpl in Hf; [|discriminate].
  injection Hf as <-. unfold safe_callback.
  destruct (c fut kw); auto.
Qed.

Lemma submit_downloads_app (a : FetchAndDownloadArgs) (cb : option callback)
    (en : lazyseq (nat * nat)) (st : State) (futures : list (nat * pyval)) :
  submit_downloads a cb en st futures
  = let '(st', new, r) := submit_downloads a cb en st [] in
    (st', futures ++ new, r).
Proof.
  revert st futures.
  induction en as [|[order illust] rest IH|e]; intros st futures;
    simpl; rewrite ?app_nil_r; try reflexivity.
  destruct (submit_download st _) as [st1 [fut|e]]; rewrite ?app_nil_r;
    [|reflexivity].
  rewrite (IH _ (futures ++ _)), (IH _ [_]).
  destruct (submit_downloads a cb rest _ []) as [[st2 new] r].
  now rewrite app_assoc.
Qed.

Lemma attempt_app (a : FetchAndDownloadArgs) (cb : option callback)
    (fetch : FunctionCall) (st : State) (futures : list (nat * pyval)) :
  attempt a cb fetch st futures
  = let '(st', new, r) := attempt a cb fetch st [] in
    (st', futures ++ new, r).
Proof.
  unfold attempt, call_fetch.
  destruct (fetch_behaviour _ _ _ _) as [qs|e]; [|now rewrite app_nil_r].
  destruct (apply_stages a qs) as [qs'|e]; [|now rewrite app_nil_r].
  apply submit_downloads_app.
Qed.

(** Each pass calls the fetch callable exactly once. *)
Lemma submit_downloads_fetch_calls (a : FetchAndDownloadArgs) (cb : option callback)
    (en : lazyseq (nat * nat)) (st : State) (futures : list (nat * pyval)) :
  cb_preserves cb ->
  forall st' new r, submit_downloads a cb en st futures = (st', new, r) ->
  st_fetch_calls st' = st_fetch_calls st.
Proof.
  intros Hcb. revert st futures.
  induction en as [|[order illust] rest IH|e]; intros st futures st' new r H;
    simpl in H.
  - congruence.
  - unfold submit_download in H.
    destruct (st_shutdown st) eqn:Hs; [congruence|].
    apply IH in H. rewrite H.
    destruct cb as [f|]; [|reflexivity].
    now rewrite (proj1 (Hcb f _ _ _ eq_refl)).
  - congruence.
Qed.

Lemma attempt_fetch_calls (a : FetchAndDownloadArgs) (cb : option callback)
    (fetch : FunctionCall) (st : State) (futures : list (nat * pyval)) :
  cb_preserves cb ->
  forall st' new r, attempt a cb fetch st futures = (st', new, r) ->
  st_fetch_calls st' = S (st_fetch_calls st).
Proof.
  intros Hcb st' new r. unfold attempt, call_fetch.
  destruct (fetch_behaviour _ _ _ _) as [qs|e]; [|intros H; now injection H as <-].
  destruct (apply_stages a qs) as [qs'|e]; [|intros H; now injection H as <-].
  intros H. apply submit_downloads_fetch_calls in H; [|exact Hcb].
  exact H.
Qed.

(** The loop over a query set that ends normally, with the executor
    running: one job per item, in order, and one [(illust, future)] pair
    per item appended to [futures]. *)
Lemma submit_downloads_of_list (a : FetchAndDownloadArgs) (cb : option callback)
    (ps : list (nat * nat)) (st : State) (futures : list (nat * pyval)) :
  cb_preserves cb -> st_shutdown st = false ->
  exists st',
    submit_downloads a cb (of_list ps) st futures
    = (st', futures ++ combine (map snd ps)
                          (map PFuture (seq (length (st_jobs st)) (length ps))),
       Ok tt)
    /\ st_jobs st' = st_jobs st
                     ++ map (fun p => download_params (download_kwargs a)
                                                      (fst p) (snd p)) ps
    /\ st_shutdown st' = false
    /\ st_fetch_calls st' = st_fetch_calls st.
Proof.
  intros Hcb. revert st futures.
  induction ps as [|[order illust] ps IH]; intros st futures Hs.
  - exists st. simpl. now rewrite !app_nil_r.
  - cbn [of_list submit_downloads]. unfold submit_download. rewrite Hs.
    set (kw := download_params (download_kwargs a) order illust).
    set (st1 := mkState (st_fetch_calls st) (st_jobs st ++ [kw]) (st_log st) false).
    set (st2 := match cb with Some f => f (PFuture (length (st_jobs st))) kw st1
                              | None => st1 end).
    assert (H2 : st_fetch_calls st2 = st_fetch_calls st
                 /\ st_jobs st2 = st_jobs st ++ [kw] /\ st_shutdown st2 = false).
    { subst st2. destruct cb as [f|]; [|subst st1; auto].
      destruct (Hcb f (PFuture (length (st_jobs st))) kw st1 eq_refl)
        as (E1 & E2 & E3).
      rewrite E1, E2, E3. subst st1. auto. }
    destruct H2 as (E1 & E2 & E3).
    destruct (IH st2 (futures ++ [(illust, PFuture (length (st_jobs st)))]) E3)
      as (st' & Hrun & Hjobs & Hshut & Hcalls).
    exists st'. rewrite Hrun. split; [|split; [|split]].
    + rewrite E2, length_app. simpl. rewrite <- app_assoc, Nat.add_1_r.
      reflexivity.
    + rewrite Hjobs, E2, <- app_assoc. reflexivity.
    + exact Hshut.
    + now rewrite Hcalls, E1.
Qed.

Lemma map_snd_combine_seq {A} (i : nat) (xs : list A) :
  map snd (combine (seq i (length xs)) xs) = xs.
Proof.
  revert i. induction xs as [|x xs IH]; intros i; [reflexivity|].
  simpl. now rewrite IH.
Qed.

Lemma length_combine_seq {A} (i : nat) (xs : list A) :
  length (combine (seq i (length xs)) xs) = length xs.
Proof.
  revert i. induction xs as [|x xs IH]; intros i; [reflexivity|].
  simpl. now rewrite IH.
Qed.


(** A pass whose fetch raises: the exception leaves the pass, nothing is
    submitted. *)
Lemma attempt_fetch_raises (a : FetchAndDownloadArgs) (cb : option callback)
    (fetch : FunctionCall) (st : State) (futures : list (nat * pyval)) (e : exn) :
  fetch_behaviour a (st_fetch_calls st) (fc_args fetch) (fc_kwargs fetch) = Raise e ->
  attempt a cb fetch st futures
  = (mkState (S (st_fetch_calls st)) (st_jobs st) (st_log st) (st_shutdown st),
     futures, Raise e).
Proof. intros H. unfold attempt, call_fetch. now rewrite H. Qed.

(** A pass whose fetch and stages succeed, over a query set that ends
    normally, with the executor running: it returns normally after one job
    per item, submitted in enumeration order. *)
Lemma attempt_fetch_ok (a : FetchAndDownloadArgs) (cb : option callback)
    (fetch : FunctionCall) (st : State) (futures : list (nat * pyval))
    (qs : lazyseq nat) (xs : list nat) :
  cb_preserves cb -> st_shutdown st = false ->
  fetch_behaviour a (st_fetch_calls st) (fc_args fetch) (fc_kwargs fetch) = Ok qs ->
  apply_stages a qs = Ok (of_list xs) ->
  exists st',
    attempt a cb fetch st futures
    = (st', futures ++ combine xs (map PFuture (seq (length (st_jobs st)) (length xs))),
       Ok tt)
    /\ st_jobs st' = st_jobs st
                     ++ map (fun p => download_params (download_kwargs a)
                                                      (fst p) (snd p))
                            (combine (seq 1 (length xs)) xs)
    /\ st_fetch_calls st' = S (st_fetch_calls st)
    /\ st_shutdown st' = false.
Proof.
  intros Hcb Hs Hf Hst. unfold attempt, call_fetch. rewrite Hf. cbn zeta.
  rewrite Hst. unfold qs_enumerate. rewrite enumerate_from_of_list.
  edestruct (submit_downloads_of_list a cb (combine (seq 1 (length xs)) xs)
               (mkState (S (st_fetch_calls st)) (st_jobs st) (st_log st)
                  (st_shutdown st)) futures Hcb Hs)
    as (st' & Hrun & Hjobs & Hshut & Hcalls).
  exists st'. rewrite Hrun. cbn [st_jobs st_fetch_calls] in *.
  rewrite map_snd_combine_seq, length_combine_seq. auto.
Qed.

(** The fetch counter advanced by [d] calls. *)
Definition add_calls (d : nat) (st : State) : State :=
  mkState (st_fetch_calls st + d) (st_jobs st) (st_log st) (st_shutdown st).



(* ------------------------------------------------------------------ *)
(** ** Building the fetch call (line 136) *)

Lemma retry_loop_S_eq (a : FetchAndDownloadArgs) (cb : option callback)
    (fetch : FunctionCall) (fuel tries : nat) (st : State)
    (futures : list (nat * pyval)) :
  retry_loop a cb fetch (S fuel) tries st futures
  = let '(st, futures, r) := attempt a cb fetch st futures in
    match r with
    | Ok _ => Some (st, Ok futures)
    | Raise e =>
        if negb (exn_is_Exception e) then Some (st, Raise e)
        else if may_retry (max_tries a) tries
        then retry_loop a cb fetch fuel (S tries) st futures
        else Some (st, Raise (set_fetch_call e fetch))
    end.
Proof. reflexivity. Qed.

Lemma fetch_and_download_bindable (a : FetchAndDownloadArgs) (fuel : nat)
    (st : State) :
  fetch_kwargs_bindable a = true ->
  fetch_and_download a fuel st
  = retry_loop a (fd_callback a) (fetch_call_of a) fuel 1 st [].
Proof.
  unfold fetch_kwargs_bindable, fetch_and_download, new_FunctionCall.
  destruct (existsb binds_init_parameter (default [] (kwargs a)));
    [discriminate | reflexivity].
Qed.

Lemma fetch_and_download_unbindable (a : FetchAndDownloadArgs) (fuel : nat)
    (st : State) :
  fetch_kwargs_bindable a = false ->
  fetch_and_download a fuel st = Some (st, Raise type_error).
Proof.
  unfold fetch_kwargs_bindable, fetch_and_download, new_FunctionCall.
  destruct (existsb binds_init_parameter (default [] (kwargs a)));
    [reflexivity | discriminate].
Qed.

(* ------------------------------------------------------------------ *)
(** ** Retrying the fetch *)




(** When the loop ends by raising an [Exception], some pass raised it,
    retrying was no longer allowed at that point, and the exception left
    with the fetch call attached. *)
Lemma retry_loop_raise_inv (a : FetchAndDownloadArgs) (cb : option callback)
    (fetch : FunctionCall) :
  forall fuel tries st futures st' e',
  retry_loop a cb fetch fuel tries st futures = Some (st', Raise e') ->
  exn_is_Exception e' = true ->
  exists tries' st0 futures0 futures1 e,
    attempt a cb fetch st0 futures0 = (st', futures1, Raise e) /\
    exn_is_Exception e = true /\ may_retry (max_tries a) tries' = false /\
    e' = set_fetch_call e fetch.
Proof.
  induction fuel as [|fuel IH]; intros tries st futures st' e' H HE;
    [discriminate|].
  cbn [retry_loop] in H.
  destruct (attempt a cb fetch st futures) as [[st1 futures1] [u|e]] eqn:Ha;
    [discriminate|].
  destruct (exn_is_Exception e) eqn:He; simpl negb in H; cbn iota in H.
  - destruct (may_retry (max_tries a) tries) eqn:Hm.
    + exact (IH _ _ _ _ _ H HE).
    + injection H as <- <-.
      exists tries, st, futures, futures1, e. auto.
  - injection H as <- <-. congruence.
Qed.

(** Claim C3.  An [Exception] leaving [fetch_and_download] comes from one
    of two places.  Either line 136 could not build the fetch call (fetch
    keyword arguments named ['fn'] or ['self']): a [TypeError] raised before
    the loop, with no fetch call made and no [fetch_call] attached; this is
    not an exhausted retry.  Or the retry bound is exhausted: the raised
    object is the exception of the last pass, with the originating fetch
    call [FunctionCall(fetch_func, *args, **kwargs)] attached as
    [fetch_call]; that call renders as [fetch_func_name(...)] with the
    non-empty parts among the positional [repr]s and the [key=repr(value)]
    items joined with [', '] (all of them, positional first, when every
    [repr] is non-empty). *)
Theorem exhausted_retry_reraises_with_fetch_call (a : FetchAndDownloadArgs)
    (fuel : nat) (st st' : State) (e' : exn) (repr : pyval -> string) :
  fetch_and_download a fuel st = Some (st', Raise e') ->
  exn_is_Exception e' = true ->
  (fetch_kwargs_bindable a = false /\ st' = st /\ e' = type_error
   /\ exn_fetch_call e' = None)
  \/ (fetch_kwargs_bindable a = true /\
  exists e m tries st0 futures0 futures1,
    max_tries a = Some m /\ (m <= Z.of_nat tries)%Z /\
    attempt a (fd_callback a) (fetch_call_of a) st0 futures0
    = (st', futures1, Raise e) /\
    exn_is_Exception e = true /\
    e' = set_fetch_call e (fetch_call_of a) /\
    exn_type e' = exn_type e /\
    exn_fetch_call e' = Some (fetch_call_of a) /\
    FunctionCall_str repr (fetch_call_of a)
    = (function_name (fetch_func a) ++ "("
       ++ String.concat ", "
            (List.filter str_truthy
               [String.concat ", " (map repr (default [] (args a)));
                String.concat ", " (map (kwarg_str repr) (default [] (kwargs a)))])
       ++ ")")%string /\
    ((forall v, repr v <> ""%string) ->
     FunctionCall_str repr (fetch_call_of a)
     = (function_name (fetch_func a) ++ "("
        ++ String.concat ", " (map repr (default [] (args a))
                               ++ map (kwarg_str repr) (default [] (kwargs a)))
        ++ ")")%string)).
Proof.
  intros H HE.
  destruct (fetch_kwargs_bindable a) eqn:Hb.
  2:{ left. rewrite fetch_and_download_unbindable in H by exact Hb.
      injection H as <- <-. auto. }
  right. split; [reflexivity|].
  rewrite fetch_and_download_bindable in H by exact Hb.
  destruct (retry_loop_raise_inv _ _ _ _ _ _ _ _ _ H HE)
    as (tries & st0 & futures0 & futures1 & e & Ha & He & Hm & ->).
  unfold may_retry in Hm. destruct (max_tries a) as [m|] eqn:Emt;
    [|discriminate].
  apply Z.ltb_ge in Hm.
  exists e, m, tries, st0, futures0, futures1.
  repeat split; try assumption; try reflexivity.
  - exact (FunctionCall_str_join_parts repr (fetch_call_of a)).
  - intros Hrepr. exact (FunctionCall_str_shape repr (fetch_call_of a) Hrepr).
Qed.

(** Witness of C3: a source failing on every call, [max_tries=2]. *)
Lemma exhausted_retry_reraises_with_fetch_call_witness :
  fetch_and_download (failing_first_args 5 (Some 2%Z)) 2 fresh_state
  = Some (mkState 2 [] [] false,
          Raise (set_fetch_call network_error
                   (fetch_call_of (failing_first_args 5 (Some 2%Z))))) /\
  exn_fetch_call (set_fetch_call network_error
                    (fetch_call_of (failing_first_args 5 (Some 2%Z))))
  = Some (fetch_call_of (failing_first_args 5 (Some 2%Z))) /\
  FunctionCall_str py_repr (fetch_call_of (failing_first_args 5 (Some 2%Z)))
  = "fetch_ranking('day', page=1)"%string.
Proof.
  assert (Hrun : fetch_and_download (failing_first_args 5 (Some 2%Z)) 2 fresh_state
                 = Some (mkState 2 [] [] false,
                         Raise (set_fetch_call network_error
                                  (fetch_call_of (failing_first_args 5 (Some 2%Z))))))
    by (vm_compute; reflexivity).
  destruct (exhausted_retry_reraises_with_fetch_call (failing_first_args 5 (Some 2%Z))
              2 fresh_state _ _ py_repr Hrun eq_refl)
    as [(Hb & _) | (_ & e & m & tries & st0 & futures0 & futures1 &
                    _ & _ & _ & _ & _ & _ & Hfc & Hstr & _)];
    [discriminate|].
  split; [exact Hrun|]. split; [exact Hfc|].
  rewrite Hstr. vm_compute. reflexivity.
Defined.

(* ------------------------------------------------------------------ *)
(** ** Stages, fan-out and the observer *)

(** Claim C5.  Over a source returning [A, B, C, D, E], [limit_before=3],
    [exclude_q] selecting [C] and [limit_after=2] select [A, B]: the call
    returns [(A, f1), (B, f2)] and submits the download of [A] with
    [order 1] and then the one of [B] with [order 2] (the stages run as
    order_by, limit, filter/exclude, limit, enumerate(start=1)). *)
Theorem scenario_limit_exclude_limit (dk : gmap string pyval)
    (cb : option (pyval -> gmap string pyval -> result unit)) (mt : option Z)
    (st : State) (fuel : nat) :
  st_shutdown st = false ->
  exists st',
    fetch_and_download (scenario_args dk cb mt) (S fuel) st
    = Some (st', Ok [(0, PFuture (length (st_jobs st)));
                     (1, PFuture (S (length (st_jobs st))))])
    /\ st_jobs st' = st_jobs st ++ [download_params dk 1 0; download_params dk 2 1].
Proof.
  intros Hs. set (a := scenario_args dk cb mt).
  assert (Hstages : apply_stages a (of_list items_ABCDE) = Ok (of_list [0; 1]))
    by reflexivity.
  edestruct (attempt_fetch_ok a (fd_callback a) (fetch_call_of a) st []
               (of_list items_ABCDE) [0; 1] (fd_callback_preserves a) Hs
               eq_refl Hstages)
    as (st' & Hrun & Hjobs & _ & _).
  exists st'. rewrite fetch_and_download_bindable by reflexivity.
  cbn [retry_loop]. rewrite Hrun.
  split; [reflexivity|]. exact Hjobs.
Qed.

(** Witness of C5 on a fresh executor. *)
Lemma scenario_limit_exclude_limit_witness :
  st_shutdown fresh_state = false /\
  exists st',
    fetch_and_download (scenario_args ∅ None (Some 5%Z)) 1 fresh_state
    = Some (st', Ok [(0, PFuture 0); (1, PFuture 1)])
    /\ st_jobs st' = [download_params ∅ 1 0; download_params ∅ 2 1].
Proof.
  split; [reflexivity|].
  exact (scenario_limit_exclude_limit ∅ None (Some 5%Z) fresh_state 0 eq_refl).
Defined.





(* ------------------------------------------------------------------ *)
(** ** The result list across retries *)

(** A run of the loop that returns normally: its result is the list it
    started from, then the pairs of the passes in between, then the pairs of
    the pass that returned. *)
Lemma retry_loop_ok_inv (a : FetchAndDownloadArgs) (cb : option callback)
    (fetch : FunctionCall) :
  forall fuel tries st futures st' res,
  retry_loop a cb fetch fuel tries st futures = Some (st', Ok res) ->
  exists st0 mid Q, attempt a cb fetch st0 [] = (st', Q, Ok tt)
    /\ res = futures ++ mid ++ Q.
Proof.
  induction fuel as [|fuel IH]; intros tries st futures st' res H;
    [discriminate|].
  rewrite retry_loop_S_eq in H. rewrite attempt_app in H.
  destruct (attempt a cb fetch st []) as [[st1 new] [[]|e]] eqn:Ha.
  - injection H as <- <-. exists st, [], new. split; [exact Ha|].
    reflexivity.
  - destruct (negb (exn_is_Exception e)); [discriminate|].
    destruct (may_retry (max_tries a) tries); [|discriminate].
    destruct (IH _ _ _ _ _ H) as (st0 & mid & Q & Ha' & ->).
    exists st0, (new ++ mid), Q. split; [exact Ha'|].
    now rewrite <- !app_assoc.
Qed.

(** Claim C9.  [futures] is created once, before the retry loop.  Take any
    pass of the loop (its try number [tries], the state it starts from and
    the list [futures] accumulated so far) that appends pairs [P] and then
    raises an [Exception] while retrying is allowed.  If a later pass
    returns, the result is [futures ++ P ++ mid ++ Q], where [Q] holds the
    pairs of the pass that returned and [mid] those of the passes in
    between: the pairs of the failed pass stay in the result.  A run of
    [fetch_and_download] is this loop from pass 1 with [futures = []] (once
    line 136 built the fetch call; otherwise no pass runs). *)
Theorem failed_pass_pairs_kept (a : FetchAndDownloadArgs) (fuel tries : nat)
    (st st1 st' : State) (futures P res : list (nat * pyval)) (e : exn) :
  attempt a (fd_callback a) (fetch_call_of a) st [] = (st1, P, Raise e) ->
  exn_is_Exception e = true ->
  may_retry (max_tries a) tries = true ->
  retry_loop a (fd_callback a) (fetch_call_of a) (S fuel) tries st futures
  = Some (st', Ok res) ->
  (exists st0 mid Q,
     attempt a (fd_callback a) (fetch_call_of a) st0 [] = (st', Q, Ok tt)
     /\ res = futures ++ P ++ mid ++ Q)
  /\ (fetch_kwargs_bindable a = true ->
      fetch_and_download a (S fuel) st
      = retry_loop a (fd_callback a) (fetch_call_of a) (S fuel) 1 st []).
Proof.
  intros H1 He Hm H. split; [|apply fetch_and_download_bindable].
  rewrite retry_loop_S_eq, attempt_app, H1, He in H. simpl negb in H.
  cbn iota in H. rewrite Hm in H.
  destruct (retry_loop_ok_inv _ _ _ _ _ _ _ _ _ H) as (st0 & mid & Q & Ha & ->).
  exists st0, mid, Q. split; [exact Ha|]. now rewrite <- !app_assoc.
Qed.

(** Witness of C9: the query set of the first pass yields illust 0 and then
    fails; the second pass yields illust 0 again. *)
Lemma failed_pass_pairs_kept_witness :
  attempt flaky_page_args (fd_callback flaky_page_args)
    (fetch_call_of flaky_page_args) fresh_state []
  = (mkState 1 [download_params ∅ 1 0] [] false, [(0, PFuture 0)],
     Raise network_error) /\
  retry_loop flaky_page_args (fd_callback flaky_page_args)
    (fetch_call_of flaky_page_args) 2 1 fresh_state []
  = Some (mkState 2 [download_params ∅ 1 0; download_params ∅ 1 0] [] false,
          Ok [(0, PFuture 0); (0, PFuture 1)]) /\
  exists st0 mid Q,
    attempt flaky_page_args (fd_callback flaky_page_args)
      (fetch_call_of flaky_page_args) st0 []
    = (mkState 2 [download_params ∅ 1 0; download_params ∅ 1 0] [] false, Q, Ok tt)
    /\ [(0, PFuture 0); (0, PFuture 1)] = [] ++ [(0, PFuture 0)] ++ mid ++ Q.
Proof.
  assert (H1 : attempt flaky_page_args (fd_callback flaky_page_args)
                 (fetch_call_of flaky_page_args) fresh_state []
               = (mkState 1 [download_params ∅ 1 0] [] false, [(0, PFuture 0)],
                  Raise network_error)) by reflexivity.
  assert (H2 : retry_loop flaky_page_args (fd_callback flaky_page_args)
                 (fetch_call_of flaky_page_args) 2 1 fresh_state []
               = Some (mkState 2 [download_params ∅ 1 0; download_params ∅ 1 0] [] false,
                       Ok [(0, PFuture 0); (0, PFuture 1)]))
    by (vm_compute; reflexivity).
  split; [exact H1|]. split; [exact H2|].
  exact (proj1 (failed_pass_pairs_kept flaky_page_args 1 1 fresh_state _ _ [] _ _ _
                  H1 eq_refl eq_refl H2)).
Defined.

(** Claim C4 fails on the code (a defect of the code).  The pass that
    succeeds fetches a query set whose pipeline yields the single illust 0,
    but the result holds two pairs for it and two downloads were submitted:
    the pair and the job of the earlier pass, which failed on its second
    page, are kept because [futures] is created outside the retry loop. *)
Lemma fan_out_counts_failed_pass :
  fetch_behaviour flaky_page_args 1 [] [] = Ok (of_list [0]) /\
  apply_stages flaky_page_args (of_list [0]) = Ok (of_list [0]) /\
  fetch_and_download flaky_page_args 5 fresh_state
  = Some (mkState 2 [download_params ∅ 1 0; download_params ∅ 1 0] [] false,
          Ok [(0, PFuture 0); (0, PFuture 1)]).
Proof. split; [reflexivity|]. split; [reflexivity|]. vm_compute. reflexivity. Qed.

(* ------------------------------------------------------------------ *)
(** ** [filter_q] and [exclude_q] together *)

(** Claim C1 fails on the code (a defect of the code).  The docstring says
    [exclude_q] is passed to [QuerySet.exclude()] only "if filter_q is not
    defined", but the two [if]s on lines 150-154 apply both: with a filter
    that keeps everything and an exclude that drops everything, setting
    [exclude_q] empties the result that [filter_q] alone gives. *)
Lemma exclude_applied_after_filter :
  fetch_and_download filter_all_args 1 fresh_state
  = Some (mkState 1 [download_params ∅ 1 0] [] false, Ok [(0, PFuture 0)]) /\
  fetch_and_download (with_exclude_q filter_all_args (Some (fun _ => true))) 1
    fresh_state
  = Some (mkState 1 [] [] false, Ok []).
Proof. split; vm_compute; reflexivity. Qed.

(* ------------------------------------------------------------------ *)
(** ** What the retry handler catches *)





(* ------------------------------------------------------------------ *)
(** ** The download parameters *)

Lemma naming_info_is_None_illust (d : gmap string pyval) (v : pyval) :
  naming_info_is_None (<["illust"%string := v]> d) = naming_info_is_None d.
Proof.
  unfold naming_info_is_None. rewrite lookup_insert_ne by discriminate.
  reflexivity.
Qed.

Lemma dict_setitem_found (h : heap) (l : positive) (k : string) (v : pyval)
    (d : gmap string pyval) :
  h !! l = Some d -> dict_setitem h l k v = <[l := <[k := v]> d]> h.
Proof. intros H. unfold dict_setitem. now rewrite H. Qed.

Lemma dict_get_found (h : heap) (l : positive) (d : gmap string pyval)
    (k : string) :
  h !! l = Some d -> dict_get h l k = default PNone (d !! k).
Proof. intros H. unfold dict_get. now rewrite H. Qed.

(** Claim C6.  For the enumerated pair [(order, illust)], lines 160-165
    allocate a fresh dict holding a copy of [download_kwargs] with
    [illust] set, and with [addition_naming_info = {'order': order}] set
    exactly when the caller's mapping has no naming hint (no
    [addition_naming_info], or [None]); the caller's dict, and every other
    dict, is left as it was. *)
Theorem download_kwargs_copied_not_mutated (h : heap) (dk : positive)
    (d : gmap string pyval) (order illust : nat) :
  h !! dk = Some d ->
  let '(h', kwargs_copy) := build_kwargs_copy h dk order illust in
  h !! kwargs_copy = None /\
  h' !! dk = Some d /\
  (forall l, l <> kwargs_copy -> h' !! l = h !! l) /\
  h' !! kwargs_copy = Some (download_params d order illust) /\
  download_params d order illust
  = (if naming_info_is_None d
     then <["addition_naming_info"%string := order_info order]>
            (<["illust"%string := PIllust illust]> d)
     else <["illust"%string := PIllust illust]> d).
Proof.
  intros Hd. unfold build_kwargs_copy, dict_copy.
  set (l := fresh (dom h)).
  assert (Hl : h !! l = None) by (apply not_elem_of_dom, is_fresh).
  assert (Hne : dk <> l) by (intros ->; congruence).
  assert (Hparams : download_params d order illust
    = (if naming_info_is_None d
       then <["addition_naming_info"%string := order_info order]>
              (<["illust"%string := PIllust illust]> d)
       else <["illust"%string := PIllust illust]> d)).
  { unfold download_params. now rewrite naming_info_is_None_illust. }
  cbn beta iota. rewrite Hd. cbn [default].
  rewrite (dict_setitem_found _ _ _ _ d) by apply lookup_insert_eq.
  rewrite insert_insert_eq.
  rewrite (dict_get_found _ _ (<["illust"%string := PIllust illust]> d))
    by apply lookup_insert_eq.
  rewrite lookup_insert_ne by discriminate.
  rewrite Hparams. unfold naming_info_is_None.
  assert (Hfinal : forall (d' : gmap string pyval) (P : Prop), P ->
    h !! l = None /\ (<[l := d']> h) !! dk = Some d /\
    (forall l', l' <> l -> (<[l := d']> h) !! l' = h !! l') /\
    (<[l := d']> h) !! l = Some d' /\ P).
  { intros d' P HP. split; [exact Hl|].
    split; [rewrite lookup_insert_ne by congruence; exact Hd|].
    split; [intros l' Hl'; now rewrite lookup_insert_ne by congruence|].
    split; [apply lookup_insert_eq | exact HP]. }
  destruct (d !! "addition_naming_info"%string) as [v|] eqn:Ev.
  - destruct v; simpl;
      try (rewrite (dict_setitem_found _ _ _ _ (<["illust"%string := PIllust illust]> d))
             by apply lookup_insert_eq;
           rewrite insert_insert_eq);
      apply Hfinal; reflexivity.
  - simpl.
    rewrite (dict_setitem_found _ _ _ _ (<["illust"%string := PIllust illust]> d))
      by apply lookup_insert_eq.
    rewrite insert_insert_eq. apply Hfinal; reflexivity.
Qed.

(** Witness of C6: a heap holding only the caller's dict, with its own
    naming hint. *)
Lemma download_kwargs_copied_not_mutated_witness :
  ({[1%positive := {["addition_naming_info"%string := PStr "custom"]}]} : heap)
    !! 1%positive
  = Some {["addition_naming_info"%string := PStr "custom"]} /\
  let '(h', kwargs_copy) :=
    build_kwargs_copy {[1%positive := {["addition_naming_info"%string := PStr "custom"]}]}
      1%positive 4 7 in
  ({[1%positive := {["addition_naming_info"%string := PStr "custom"]}]} : heap)
    !! kwargs_copy = None /\
  h' !! 1%positive = Some {["addition_naming_info"%string := PStr "custom"]} /\
  (forall l, l <> kwargs_copy ->
     h' !! l = ({[1%positive := {["addition_naming_info"%string := PStr "custom"]}]} : heap) !! l) /\
  h' !! kwargs_copy
  = Some (download_params {["addition_naming_info"%string := PStr "custom"]} 4 7) /\
  download_params {["addition_naming_info"%string := PStr "custom"]} 4 7
  = (if naming_info_is_None {["addition_naming_info"%string := PStr "custom"]}
     then <["addition_naming_info"%string := order_info 4]>
            (<["illust"%string := PIllust 7]>
               {["addition_naming_info"%string := PStr "custom"]})
     else <["illust"%string := PIllust 7]>
            {["addition_naming_info"%string := PStr "custom"]}).
Proof.
  assert (Hd : ({[1%positive := {["addition_naming_info"%string := PStr "custom"]}]} : heap)
                 !! 1%positive
               = Some {["addition_naming_info"%string := PStr "custom"]})
    by reflexivity.
  split; [exact Hd|].
  exact (download_kwargs_copied_not_mutated _ 1%positive _ 4 7 Hd).
Defined.

(* ================================================================== *)
(** * Further properties of [fetch_and_download] *)

(* ------------------------------------------------------------------ *)
(** ** The keys of a download job *)

(** Lines 160-165 seen key by key. *)
Lemma download_params_lookup (download_kwargs : gmap string pyval)
    (order illust : nat) (k : string) :
  k <> "illust"%string -> k <> "addition_naming_info"%string ->
  download_params download_kwargs order illust !! "illust"%string
  = Some (PIllust illust)
  /\ download_params download_kwargs order illust !! "addition_naming_info"%string
     = (if naming_info_is_None download_kwargs
        then Some (order_info order)
        else download_kwargs !! "addition_naming_info"%string)
  /\ download_params download_kwargs order illust !! k = download_kwargs !! k.
Proof.
  intros Hk1 Hk2. unfold download_params.
  rewrite naming_info_is_None_illust.
  destruct (naming_info_is_None download_kwargs).
  - split; [rewrite lookup_insert_ne by discriminate; apply lookup_insert_eq|].
    split; [apply lookup_insert_eq|].
    rewrite !lookup_insert_ne by congruence. reflexivity.
  - split; [apply lookup_insert_eq|].
    split; [rewrite lookup_insert_ne by discriminate; reflexivity|].
    rewrite lookup_insert_ne by congruence. reflexivity.
Qed.

(* ------------------------------------------------------------------ *)
(** ** Every returned future is the download of its illust *)

(** The pairs collected so far point at distinct submitted jobs, each for
    the illust it is paired with. *)
Definition futures_match_jobs (jobs : list (gmap string pyval))
    (futures : list (nat * pyval)) : Prop :=
  Forall (fun p => exists j kw, snd p = PFuture j /\ jobs !! j = Some kw
                                /\ kw !! "illust"%string = Some (PIllust (fst p)))
         futures
  /\ NoDup (map snd futures).

Lemma futures_match_jobs_app_job (jobs : list (gmap string pyval))
    (futures : list (nat * pyval)) (kw : gmap string pyval) (illust : nat) :
  futures_match_jobs jobs futures ->
  kw !! "illust"%string = Some (PIllust illust) ->
  futures_match_jobs (jobs ++ [kw]) (futures ++ [(illust, PFuture (length jobs))]).
Proof.
  intros [HF HN] Hkw. split.
  - apply Forall_app. split.
    + eapply Forall_impl; [exact HF|]. intros p (j & kw' & Hj & Hl & Hi).
      exists j, kw'. split; [exact Hj|]. split; [|exact Hi].
      rewrite lookup_app_l; [exact Hl|]. apply lookup_lt_Some in Hl. exact Hl.
    + constructor; [|constructor]. exists (length jobs), kw.
      split; [reflexivity|]. split; [|exact Hkw].
      rewrite lookup_app_r by lia. rewrite Nat.sub_diag. reflexivity.
  - rewrite map_app. apply NoDup_app. split; [exact HN|]. split.
    + intros f Hf Hin. apply list_elem_of_singleton in Hin. subst f.
      apply list_elem_of_In, in_map_iff in Hf.
      destruct Hf as (p & Hp & Hin).
      rewrite Forall_forall in HF. apply list_elem_of_In in Hin.
      destruct (HF p Hin) as (j & kw' & Hj & Hl & _).
      rewrite Hp in Hj. injection Hj as Hj.
      apply lookup_lt_Some in Hl. lia.
    + apply NoDup_singleton.
Qed.

Lemma submit_downloads_match (a : FetchAndDownloadArgs) (cb : option callback)
    (en : lazyseq (nat * nat)) :
  cb_preserves cb ->
  forall st futures st' futures' r,
  futures_match_jobs (st_jobs st) futures ->
  submit_downloads a cb en st futures = (st', futures', r) ->
  futures_match_jobs (st_jobs st') futures'
  /\ exists ext, st_jobs st' = st_jobs st ++ ext.
Proof.
  intros Hcb. induction en as [|[order illust] rest IH|e];
    intros st futures st' futures' r Hm H; cbn [submit_downloads] in H.
  - injection H as <- <- _. split; [exact Hm|]. exists []. now rewrite app_nil_r.
  - unfold submit_download in H. destruct (st_shutdown st) eqn:Hs.
    + injection H as <- <- _. split; [exact Hm|]. exists [].
      now rewrite app_nil_r.
    + set (kw := download_params (download_kwargs a) order illust) in H.
      set (st1 := mkState (st_fetch_calls st) (st_jobs st ++ [kw]) (st_log st) false)
        in H.
      set (st2 := match cb with Some f => f (PFuture (length (st_jobs st))) kw st1
                                | None => st1 end) in H.
      assert (Hj2 : st_jobs st2 = st_jobs st ++ [kw]).
      { subst st2. destruct cb as [f|]; [|reflexivity].
        rewrite (proj1 (proj2 (Hcb f _ _ st1 eq_refl))). reflexivity. }
      destruct (IH st2 (futures ++ [(illust, PFuture (length (st_jobs st)))]) st' futures' r)
        as [Hm' (ext & Hext)]; [| exact H |].
      * rewrite Hj2. apply futures_match_jobs_app_job; [exact Hm|].
        subst kw. destruct (download_params_lookup (download_kwargs a) order illust
                              "x" ltac:(discriminate) ltac:(discriminate)) as [Hi _].
        exact Hi.
      * split; [exact Hm'|]. exists (kw :: ext).
        rewrite Hext, Hj2, <- app_assoc. reflexivity.
  - injection H as <- <- _. split; [exact Hm|]. exists []. now rewrite app_nil_r.
Qed.

Lemma attempt_match (a : FetchAndDownloadArgs) (cb : option callback)
    (fetch : FunctionCall) :
  cb_preserves cb ->
  forall st futures st' futures' r,
  futures_match_jobs (st_jobs st) futures ->
  attempt a cb fetch st futures = (st', futures', r) ->
  futures_match_jobs (st_jobs st') futures'
  /\ exists ext, st_jobs st' = st_jobs st ++ ext.
Proof.
  intros Hcb st futures st' futures' r Hm. unfold attempt, call_fetch.
  destruct (fetch_behaviour _ _ _ _) as [qs|e].
  2:{ intros H. injection H as <- <- _. split; [exact Hm|].
      exists []. simpl. now rewrite app_nil_r. }
  destruct (apply_stages a qs) as [qs'|e].
  2:{ intros H. injection H as <- <- _. split; [exact Hm|].
      exists []. simpl. now rewrite app_nil_r. }
  intros H. exact (submit_downloads_match a cb _ Hcb
    (mkState (S (st_fetch_calls st)) (st_jobs st) (st_log st) (st_shutdown st))
    _ _ _ _ Hm H).
Qed.

Lemma retry_loop_match (a : FetchAndDownloadArgs) (cb : option callback)
    (fetch : FunctionCall) :
  cb_preserves cb ->
  forall fuel tries st futures st' r,
  futures_match_jobs (st_jobs st) futures ->
  retry_loop a cb fetch fuel tries st futures = Some (st', r) ->
  (forall res, r = Ok res -> futures_match_jobs (st_jobs st') res)
  /\ exists ext, st_jobs st' = st_jobs st ++ ext.
Proof.
  intros Hcb. induction fuel as [|fuel IH];
    intros tries st futures st' r Hm H; [discriminate|].
  cbn [retry_loop] in H.
  destruct (attempt a cb fetch st futures) as [[st1 futures1] r1] eqn:Ha.
  destruct (attempt_match a cb fetch Hcb _ _ _ _ _ Hm Ha) as [Hm1 (ext1 & Hext1)].
  destruct r1 as [u|e].
  - injection H as <- <-. split; [intros res Hres; injection Hres as <-; exact Hm1|].
    exists ext1. exact Hext1.
  - destruct (negb (exn_is_Exception e)).
    { injection H as <- <-. split; [discriminate|]. exists ext1. exact Hext1. }
    destruct (may_retry (max_tries a) tries).
    + destruct (IH _ _ _ _ _ Hm1 H) as [Hr (ext2 & Hext2)].
      split; [exact Hr|]. exists (ext1 ++ ext2).
      rewrite Hext2, Hext1, app_assoc. reflexivity.
    + injection H as <- <-. split; [discriminate|]. exists ext1. exact Hext1.
Qed.

(** Whatever retries happened, every [(illust, future)] pair returned by
    [fetch_and_download] is the future of a distinct submitted download job
    whose [illust] keyword is that illust; and the run only appends jobs to
    the executor, it never drops one. *)
Theorem returned_futures_are_their_downloads (a : FetchAndDownloadArgs)
    (fuel : nat) (st st' : State) (res : list (nat * pyval)) :
  fetch_and_download a fuel st = Some (st', Ok res) ->
  Forall (fun p => exists j kw, snd p = PFuture j /\ st_jobs st' !! j = Some kw
                                /\ kw !! "illust"%string = Some (PIllust (fst p)))
         res
  /\ NoDup (map snd res)
  /\ exists ext, st_jobs st' = st_jobs st ++ ext.
Proof.
  intros H.
  destruct (fetch_kwargs_bindable a) eqn:Hb.
  2:{ rewrite fetch_and_download_unbindable in H by exact Hb. discriminate. }
  rewrite fetch_and_download_bindable in H by exact Hb.
  assert (H0 : futures_match_jobs (st_jobs st) []).
  { split; [constructor | constructor]. }
  destruct (retry_loop_match a _ _ (fd_callback_preserves a) _ _ _ _ _ _ H0 H)
    as [Hr Hext].
  destruct (Hr res eq_refl) as [HF HN]. auto.
Qed.

Lemma returned_futures_are_their_downloads_witness :
  fetch_and_download flaky_page_args 5 fresh_state
  = Some (mkState 2 [download_params ∅ 1 0; download_params ∅ 1 0] [] false,
          Ok [(0, PFuture 0); (0, PFuture 1)]) /\
  Forall (fun p => exists j kw, snd p = PFuture j
                     /\ [download_params ∅ 1 0; download_params ∅ 1 0] !! j = Some kw
                     /\ kw !! "illust"%string = Some (PIllust (fst p)))
         [(0, PFuture 0); (0, PFuture 1)]
  /\ NoDup (map snd [(0, PFuture 0); (0, PFuture 1)])
  /\ exists ext, [download_params ∅ 1 0; download_params ∅ 1 0] = [] ++ ext.
Proof.
  assert (H : fetch_and_download flaky_page_args 5 fresh_state
              = Some (mkState 2 [download_params ∅ 1 0; download_params ∅ 1 0] [] false,
                      Ok [(0, PFuture 0); (0, PFuture 1)]))
    by (vm_compute; reflexivity).
  split; [exact H|].
  exact (returned_futures_are_their_downloads flaky_page_args 5 fresh_state _ _ H).
Defined.

(* ------------------------------------------------------------------ *)
(** ** A pool shut down under a running [fetch_and_download] *)

Lemma add_calls_S (d : nat) (st : State) :
  add_calls d (add_calls 1 st) = add_calls (S d) st.
Proof. destruct st. unfold add_calls. simpl. f_equal. lia. Qed.

Lemma add_calls_shutdown (d : nat) (st : State) :
  st_shutdown (add_calls d st) = st_shutdown st.
Proof. reflexivity. Qed.

(** A pass over a shut-down pool whose query set yields an item: the first
    [self.download] raises [RuntimeError] before any job is added. *)
Lemma attempt_after_shutdown (a : FetchAndDownloadArgs) (cb : option callback)
    (fetch : FunctionCall) (st : State) (futures : list (nat * pyval))
    (qs : lazyseq nat) (x : nat) (rest : lazyseq nat) :
  st_shutdown st = true ->
  fetch_behaviour a (st_fetch_calls st) (fc_args fetch) (fc_kwargs fetch) = Ok qs ->
  apply_stages a qs = Ok (LCons x rest) ->
  attempt a cb fetch st futures = (add_calls 1 st, futures, Raise runtime_error).
Proof.
  intros Hs Hf Hst. unfold attempt, call_fetch. rewrite Hf. cbn zeta.
  rewrite Hst. cbn [qs_enumerate enumerate_from submit_downloads].
  unfold submit_download. cbn [st_shutdown]. rewrite Hs.
  destruct st as [c j l sh]. cbn in Hs. subst sh. unfold add_calls. cbn.
  now replace (c + 1) with (S c) by lia.
Qed.

(** Every pass fails the same way, each leaving one more fetch call. *)
Lemma retry_loop_same_failure (a : FetchAndDownloadArgs) (cb : option callback)
    (fetch : FunctionCall) (e : exn) (m : nat) (P : State -> Prop) :
  exn_is_Exception e = true -> max_tries a = Some (Z.of_nat m) ->
  (forall st0 futures0, P st0 ->
     attempt a cb fetch st0 futures0 = (add_calls 1 st0, futures0, Raise e)) ->
  (forall st0, P st0 -> P (add_calls 1 st0)) ->
  forall d fuel tries st futures, P st -> tries + d = m ->
  retry_loop a cb fetch (S d + fuel) tries st futures
  = Some (add_calls (S d) st, Raise (set_fetch_call e fetch)).
Proof.
  intros He Hmt Hatt HP. induction d as [|d IH]; intros fuel tries st futures Hst Hd;
    change (S ?k + fuel) with (S (k + fuel)); rewrite retry_loop_S_eq;
    rewrite (Hatt st futures Hst), He; simpl negb; cbn iota;
    unfold may_retry; rewrite Hmt.
  - replace (Z.of_nat tries <? Z.of_nat m)%Z with false
      by (symmetry; apply Z.ltb_ge; lia).
    reflexivity.
  - replace (Z.of_nat tries <? Z.of_nat m)%Z with true
      by (symmetry; apply Z.ltb_lt; lia).
    rewrite <- (add_calls_S (S d) st).
    exact (IH fuel (S tries) (add_calls 1 st) futures (HP st Hst) ltac:(lia)).
Qed.

(** When the pool is shut down (for instance by leaving the [with] block)
    while [fetch_and_download] runs, and every fetch yields a query set that
    still has an item after the filter stages, no download is ever
    submitted: each pass fails at its first [self.download] with
    [RuntimeError], which is an [Exception] and so is retried; after
    [max_tries] fetches that [RuntimeError] is raised with [fetch_call]
    attached, and the pool's jobs are those it had before.  (The fetch
    call of line 136 is assumed buildable: no ['fn'] or ['self'] keyword.) *)
Theorem shutdown_pool_fails_every_pass (a : FetchAndDownloadArgs)
    (m fuel : nat) (st : State) :
  fetch_kwargs_bindable a = true ->
  max_tries a = Some (Z.of_nat m) -> 1 <= m -> m <= fuel ->
  (forall n, exists qs x rest,
     fetch_behaviour a n (default [] (args a)) (default [] (kwargs a)) = Ok qs
     /\ apply_stages a qs = Ok (LCons x rest)) ->
  fetch_and_download a fuel (shutdown st)
  = Some (add_calls m (shutdown st),
          Raise (set_fetch_call runtime_error (fetch_call_of a))).
Proof.
  intros Hb Hmt Hm Hfuel Hsrc. rewrite fetch_and_download_bindable by exact Hb.
  destruct m as [|m']; [lia|].
  replace fuel with (S m' + (fuel - S m')) by lia.
  apply (retry_loop_same_failure a _ _ runtime_error (S m')
           (fun st0 => st_shutdown st0 = true)); [reflexivity | exact Hmt | | | reflexivity | lia].
  - intros st0 futures0 Hs0.
    destruct (Hsrc (st_fetch_calls st0)) as (qs & x & rest & Hf & Hst).
    exact (attempt_after_shutdown a _ (fetch_call_of a) st0 futures0 qs x rest Hs0 Hf Hst).
  - intros st0 Hs0. exact Hs0.
Qed.

Lemma shutdown_pool_fails_every_pass_witness :
  max_tries (scenario_args ∅ None (Some 3%Z)) = Some (Z.of_nat 3) /\
  fetch_and_download (scenario_args ∅ None (Some 3%Z)) 4 (shutdown fresh_state)
  = Some (add_calls 3 (shutdown fresh_state),
          Raise (set_fetch_call runtime_error
                   (fetch_call_of (scenario_args ∅ None (Some 3%Z))))).
Proof.
  assert (Hmt : max_tries (scenario_args ∅ None (Some 3%Z)) = Some (Z.of_nat 3))
    by reflexivity.
  split; [exact Hmt|].
  apply (shutdown_pool_fails_every_pass (scenario_args ∅ None (Some 3%Z)) 3 4 fresh_state eq_refl Hmt); [lia | lia |].
  intros n. exists (of_list items_ABCDE), 0, (LCons 1 LNil).
  split; [reflexivity | vm_compute; reflexivity].
Defined.

(* ------------------------------------------------------------------ *)
(** ** How many passes [max_tries] allows *)

(** With [max_tries=None] the handler always continues: a source that
    fails on every call keeps [fetch_and_download] busy for ever; no bound
    on the number of passes lets it return or raise (once the fetch call
    of line 136 is built). *)
Theorem max_tries_None_retries_forever (a : FetchAndDownloadArgs) (st : State) :
  fetch_kwargs_bindable a = true ->
  max_tries a = None ->
  (forall n, exists e,
     fetch_behaviour a n (default [] (args a)) (default [] (kwargs a)) = Raise e
     /\ exn_is_Exception e = true) ->
  forall fuel, fetch_and_download a fuel st = None.
Proof.
  intros Hb Hmt Hsrc fuel. rewrite fetch_and_download_bindable by exact Hb.
  generalize 1 as tries. generalize (@nil (nat * pyval)) as futures.
  revert st. induction fuel as [|fuel IH]; intros st futures tries; [reflexivity|].
  cbn [retry_loop].
  destruct (Hsrc (st_fetch_calls st)) as (e & Hf & He).
  rewrite (attempt_fetch_raises a _ (fetch_call_of a) st futures e Hf), He.
  simpl negb. cbn iota. unfold may_retry. rewrite Hmt. apply IH.
Qed.

Lemma max_tries_None_retries_forever_witness :
  max_tries always_failing_args = None /\
  fetch_and_download always_failing_args 50 fresh_state = None.
Proof.
  assert (Hmt : max_tries always_failing_args = None) by reflexivity.
  split; [exact Hmt|].
  apply (max_tries_None_retries_forever always_failing_args fresh_state eq_refl Hmt).
  intros n. exists network_error. split; reflexivity.
Defined.

(** [max_tries] of [1], [0] or less: the first pass is the only one.  Its
    normal end returns the pairs; an [Exception] is raised at once with
    [fetch_call] attached (since [1 < max_tries] fails); anything else
    propagates unchanged.  Either way [fetch] was called exactly once.
    (The fetch call of line 136 is assumed buildable.) *)
Theorem max_tries_at_most_one_single_pass (a : FetchAndDownloadArgs) (m : Z)
    (fuel : nat) (st : State) :
  fetch_kwargs_bindable a = true ->
  max_tries a = Some m -> (m <= 1)%Z ->
  fetch_and_download a (S fuel) st
  = (let '(st1, futures, r) := attempt a (fd_callback a) (fetch_call_of a) st [] in
     match r with
     | Ok _ => Some (st1, Ok futures)
     | Raise e => Some (st1, Raise (if exn_is_Exception e
                                    then set_fetch_call e (fetch_call_of a) else e))
     end)
  /\ forall st' r, fetch_and_download a (S fuel) st = Some (st', r) ->
     st_fetch_calls st' = S (st_fetch_calls st).
Proof.
  intros Hb Hmt Hm.
  assert (Hrun : fetch_and_download a (S fuel) st
    = (let '(st1, futures, r) := attempt a (fd_callback a) (fetch_call_of a) st [] in
       match r with
       | Ok _ => Some (st1, Ok futures)
       | Raise e => Some (st1, Raise (if exn_is_Exception e
                                      then set_fetch_call e (fetch_call_of a) else e))
       end)).
  { rewrite fetch_and_download_bindable by exact Hb. cbn [retry_loop].
    destruct (attempt a (fd_callback a) (fetch_call_of a) st []) as [[st1 futures] [u|e]];
      [reflexivity|].
    destruct (exn_is_Exception e); simpl negb; cbn iota; [|reflexivity].
    unfold may_retry. rewrite Hmt.
    replace (Z.of_nat 1 <? m)%Z with false by (symmetry; apply Z.ltb_ge; lia).
    reflexivity. }
  split; [exact Hrun|].
  intros st' r H. rewrite Hrun in H.
  destruct (attempt a (fd_callback a) (fetch_call_of a) st []) as [[st1 futures] r1] eqn:Ha.
  pose proof (attempt_fetch_calls _ _ _ _ _ (fd_callback_preserves a) _ _ _ Ha) as Hc.
  destruct r1; injection H as <- _; exact Hc.
Qed.

Lemma max_tries_at_most_one_single_pass_witness :
  max_tries (with_max_tries (failing_first_args 1 None) (Some 0%Z)) = Some 0%Z /\
  fetch_and_download (with_max_tries (failing_first_args 1 None) (Some 0%Z)) 3 fresh_state
  = Some (mkState 1 [] [] false,
          Raise (set_fetch_call network_error
                   (fetch_call_of (with_max_tries (failing_first_args 1 None) (Some 0%Z))))).
Proof.
  assert (Hmt : max_tries (with_max_tries (failing_first_args 1 None) (Some 0%Z))
                = Some 0%Z) by reflexivity.
  split; [exact Hmt|].
  destruct (max_tries_at_most_one_single_pass (with_max_tries (failing_first_args 1 None) (Some 0%Z)) 0%Z 2 fresh_state eq_refl Hmt ltac:(lia))
    as [Hrun _].
  rewrite Hrun. vm_compute. reflexivity.
Defined.

Lemma retry_loop_bounded (a : FetchAndDownloadArgs) (cb : option callback)
    (fetch : FunctionCall) (m : Z) :
  cb_preserves cb -> max_tries a = Some m ->
  forall fuel tries st futures, 1 <= tries -> Z.to_nat m - tries + 1 <= fuel ->
  exists st' r, retry_loop a cb fetch fuel tries st futures = Some (st', r)
    /\ st_fetch_calls st' <= st_fetch_calls st + (Z.to_nat m - tries + 1).
Proof.
  intros Hcb Hmt. induction fuel as [|fuel IH]; intros tries st futures Ht Hf;
    [lia|].
  cbn [retry_loop].
  destruct (attempt a cb fetch st futures) as [[st1 futures1] r1] eqn:Ha.
  pose proof (attempt_fetch_calls _ _ _ _ _ Hcb _ _ _ Ha) as Hc.
  destruct r1 as [u|e]; [exists st1, (Ok futures1); split; [reflexivity|lia]|].
  destruct (negb (exn_is_Exception e)); [exists st1, (Raise e); split; [reflexivity|lia]|].
  unfold may_retry. rewrite Hmt.
  destruct (Z.of_nat tries <? m)%Z eqn:Hlt.
  - apply Z.ltb_lt in Hlt.
    destruct (IH (S tries) st1 futures1 ltac:(lia) ltac:(lia)) as (st' & r & Hr & Hb).
    exists st', r. split; [exact Hr|lia].
  - exists st1, (Raise (set_fetch_call e fetch)). split; [reflexivity|lia].
Qed.

Lemma retry_loop_fuel_enough (a : FetchAndDownloadArgs) (cb : option callback)
    (fetch : FunctionCall) (m : Z) :
  max_tries a = Some m ->
  forall fuel fuel' tries st futures, 1 <= tries -> Z.to_nat m - tries + 1 <= fuel ->
  fuel <= fuel' ->
  retry_loop a cb fetch fuel' tries st futures = retry_loop a cb fetch fuel tries st futures.
Proof.
  intros Hmt. induction fuel as [|fuel IH]; intros fuel' tries st futures Ht Hf Hle;
    [lia|].
  destruct fuel' as [|fuel']; [lia|].
  cbn [retry_loop].
  destruct (attempt a cb fetch st futures) as [[st1 futures1] [u|e]]; [reflexivity|].
  destruct (negb (exn_is_Exception e)); [reflexivity|].
  unfold may_retry. rewrite Hmt.
  destruct (Z.of_nat tries <? m)%Z eqn:Hlt; [|reflexivity].
  apply Z.ltb_lt in Hlt. apply IH; lia.
Qed.

(** With [max_tries] set to an integer [m], no pass after the
    [max(1, m)]-th ever starts: the outcome of [fetch_and_download] is the
    same as when the loop is cut after [max(1, m)] passes, and [fetch] is
    called at most [max(1, m)] times, whatever the source and the
    callback do. *)
Theorem max_tries_bounds_passes (a : FetchAndDownloadArgs) (m : Z)
    (fuel : nat) (st : State) :
  max_tries a = Some m -> Nat.max 1 (Z.to_nat m) <= fuel ->
  fetch_and_download a fuel st = fetch_and_download a (Nat.max 1 (Z.to_nat m)) st
  /\ forall st' r, fetch_and_download a fuel st = Some (st', r) ->
     st_fetch_calls st' <= st_fetch_calls st + Nat.max 1 (Z.to_nat m).
Proof.
  intros Hmt Hf.
  destruct (fetch_kwargs_bindable a) eqn:Hb.
  - rewrite !(fetch_and_download_bindable a _ st Hb).
    split.
    + apply (retry_loop_fuel_enough a (fd_callback a) (fetch_call_of a) m Hmt); lia.
    + intros st' r H.
      destruct (retry_loop_bounded a (fd_callback a) (fetch_call_of a) m
                  (fd_callback_preserves a) Hmt fuel 1 st [] ltac:(lia) ltac:(lia))
        as (st'' & r'' & Hr & Hbd).
      rewrite H in Hr. injection Hr as <- <-. lia.
  - rewrite !(fetch_and_download_unbindable a _ st Hb).
    split; [reflexivity|].
    intros st' r H. injection H as <- _. lia.
Qed.

Lemma max_tries_bounds_passes_witness :
  max_tries bad_limit_args = Some 3%Z /\
  fetch_and_download bad_limit_args 10 fresh_state
  = fetch_and_download bad_limit_args 3 fresh_state /\
  fetch_and_download bad_limit_args 10 fresh_state
  = Some (mkState 3 [] [] false,
          Raise (set_fetch_call invalid_argument (fetch_call_of bad_limit_args))).
Proof.
  assert (Hmt : max_tries bad_limit_args = Some 3%Z) by reflexivity.
  destruct (max_tries_bounds_passes bad_limit_args 3 10 fresh_state Hmt ltac:(simpl; lia))
    as [Heq _].
  split; [exact Hmt|]. split; [exact Heq|].
  rewrite Heq. vm_compute. reflexivity.
Defined.

(* ------------------------------------------------------------------ *)
(** ** The jobs of a first pass that succeeds *)

Lemma lookup_map_list {A B} (f : A -> B) (l : list A) (i : nat) :
  map f l !! i = f <$> l !! i.
Proof.
  revert i. induction l as [|x l IH]; intros [|i]; simpl; auto.
Qed.

Lemma lookup_combine_seq {A} (s : nat) (xs : list A) (i : nat) (x : A) :
  xs !! i = Some x -> combine (seq s (length xs)) xs !! i = Some (s + i, x).
Proof.
  revert s i. induction xs as [|y xs IH]; intros s [|i] H; simpl in *;
    try discriminate.
  - injection H as ->. now rewrite Nat.add_0_r.
  - rewrite (IH (S s) i H). f_equal. f_equal. lia.
Qed.

(** When the first fetch and the filter stages succeed with items [xs], the
    pool is running and the caller gave no naming hint, [fetch_and_download]
    returns after that pass, and the job submitted for the item at index
    [i] of [xs] is the [(len + i)]-th job of the pool ([len] jobs were there
    before): its [illust] is that item and its hint is
    [{'order': i + 1}], numbered by [enumerate(start=1)].  (The fetch call
    of line 136 is assumed buildable.) *)
Theorem first_pass_jobs_numbered_from_1 (a : FetchAndDownloadArgs)
    (fuel : nat) (st : State) (qs : lazyseq nat) (xs : list nat) :
  fetch_kwargs_bindable a = true ->
  st_shutdown st = false -> naming_info_is_None (download_kwargs a) = true ->
  fetch_behaviour a (st_fetch_calls st) (default [] (args a)) (default [] (kwargs a))
  = Ok qs ->
  apply_stages a qs = Ok (of_list xs) ->
  exists st' res, fetch_and_download a (S fuel) st = Some (st', Ok res)
    /\ length (st_jobs st') = length (st_jobs st) + length xs
    /\ forall i illust, xs !! i = Some illust ->
       exists kw, st_jobs st' !! (length (st_jobs st) + i) = Some kw
         /\ kw !! "illust"%string = Some (PIllust illust)
         /\ kw !! "addition_naming_info"%string = Some (order_info (S i)).
Proof.
  intros Hb Hs Hn Hf Hst.
  destruct (attempt_fetch_ok a (fd_callback a) (fetch_call_of a) st [] qs xs
              (fd_callback_preserves a) Hs Hf Hst) as (st' & Ha & Hjobs & _ & _).
  exists st', ([] ++ combine xs (map PFuture (seq (length (st_jobs st)) (length xs)))).
  split.
  { rewrite fetch_and_download_bindable by exact Hb.
    rewrite retry_loop_S_eq, Ha. reflexivity. }
  rewrite Hjobs. split.
  { rewrite length_app, length_map, length_combine, length_seq. lia. }
  intros i illust Hi.
  exists (download_params (download_kwargs a) (S i) illust).
  split.
  - rewrite lookup_app_r by lia. replace (length (st_jobs st) + i - length (st_jobs st))
      with i by lia.
    rewrite lookup_map_list, (lookup_combine_seq 1 xs i illust Hi). reflexivity.
  - destruct (download_params_lookup (download_kwargs a) (S i) illust "x"
                ltac:(discriminate) ltac:(discriminate)) as (H1 & H2 & _).
    rewrite Hn in H2. split; assumption.
Qed.

Lemma first_pass_jobs_numbered_from_1_witness :
  (exists st' res,
     fetch_and_download (scenario_args ∅ None (Some 3%Z)) 1 fresh_state
     = Some (st', Ok res)
     /\ length (st_jobs st') = length (st_jobs fresh_state) + length [0; 1]
     /\ forall i illust, [0; 1] !! i = Some illust ->
        exists kw, st_jobs st' !! (length (st_jobs fresh_state) + i) = Some kw
          /\ kw !! "illust"%string = Some (PIllust illust)
          /\ kw !! "addition_naming_info"%string = Some (order_info (S i))).
Proof.
  apply (first_pass_jobs_numbered_from_1 _ 0 fresh_state (of_list items_ABCDE) [0; 1]);
    [reflexivity | reflexivity | reflexivity | reflexivity | vm_compute; reflexivity].
Defined.

(* ------------------------------------------------------------------ *)
(** ** Exceptions outside [Exception] *)

(** [except Exception] (line 173) does not catch a [BaseException] that is
    not an [Exception] (a [KeyboardInterrupt], a [SystemExit]): raised by the
    fetch, it leaves [fetch_and_download] at once, whatever [max_tries] is,
    with no retry and without the [fetch_call] attribute.  (The fetch call
    of line 136 is assumed buildable.) *)
Theorem non_Exception_from_fetch_propagates (a : FetchAndDownloadArgs)
    (fuel : nat) (st : State) (e : exn) :
  fetch_kwargs_bindable a = true ->
  fetch_behaviour a (st_fetch_calls st) (default [] (args a)) (default [] (kwargs a))
  = Raise e ->
  exn_is_Exception e = false ->
  fetch_and_download a (S fuel) st = Some (add_calls 1 st, Raise e).
Proof.
  intros Hb Hf He. rewrite fetch_and_download_bindable by exact Hb.
  rewrite retry_loop_S_eq.
  rewrite (attempt_fetch_raises a _ (fetch_call_of a) st [] e Hf), He.
  simpl negb. cbn iota. f_equal. f_equal.
  destruct st. unfold add_calls. simpl. f_equal. lia.
Qed.

Lemma non_Exception_from_fetch_propagates_witness :
  fetch_and_download interrupted_args 5 fresh_state
  = Some (add_calls 1 fresh_state, Raise keyboard_interrupt).
Proof.
  apply (non_Exception_from_fetch_propagates interrupted_args 4 fresh_state
           keyboard_interrupt); reflexivity.
Defined.

(* ------------------------------------------------------------------ *)
(** ** Runs that never call [fetch] *)

Lemma retry_loop_calls_grow (a : FetchAndDownloadArgs) (cb : option callback)
    (fetch : FunctionCall) :
  cb_preserves cb ->
  forall fuel tries st futures st' r,
  retry_loop a cb fetch fuel tries st futures = Some (st', r) ->
  st_fetch_calls st < st_fetch_calls st'.
Proof.
  intros Hcb. induction fuel as [|fuel IH]; intros tries st futures st' r H;
    [discriminate|].
  cbn [retry_loop] in H.
  destruct (attempt a cb fetch st futures) as [[st1 futures1] r1] eqn:Ha.
  pose proof (attempt_fetch_calls _ _ _ _ _ Hcb _ _ _ Ha) as Hc.
  destruct r1 as [u|e]; [injection H as <- _; lia|].
  destruct (negb (exn_is_Exception e)); [injection H as <- _; lia|].
  destruct (may_retry (max_tries a) tries); [|injection H as <- _; lia].
  pose proof (IH _ _ _ _ _ H). lia.
Qed.

(** A run of [fetch_and_download] that returns or raises without having
    called [fetch] once is exactly the [TypeError] of line 136: it happens
    precisely when the fetch keyword arguments name ['fn'] or ['self'], and
    then the state is untouched.  Every run that gets past line 136 and
    ends has called [fetch] at least once. *)
Theorem ends_without_fetch_iff_TypeError (a : FetchAndDownloadArgs) (fuel : nat)
    (st : State) :
  (exists st' r, fetch_and_download a fuel st = Some (st', r)
     /\ st_fetch_calls st' = st_fetch_calls st)
  <-> (fetch_kwargs_bindable a = false
       /\ fetch_and_download a fuel st = Some (st, Raise type_error)).
Proof.
  split.
  - intros (st' & r & H & Hc).
    destruct (fetch_kwargs_bindable a) eqn:Hb.
    + rewrite (fetch_and_download_bindable a fuel st Hb) in H.
      pose proof (retry_loop_calls_grow a (fd_callback a) (fetch_call_of a)
                    (fd_callback_preserves a) _ _ _ _ _ _ H). lia.
    + split; [reflexivity|]. exact (fetch_and_download_unbindable a fuel st Hb).
  - intros [_ H]. exists st, (Raise type_error). split; [exact H|reflexivity].
Qed.
